(** * Focus/break interval timer: the state machine of [App.tsx]

    The component [App] keeps five pieces of React state ([phase],
    [timeLeft], [isRunning], [completedPomodoros], [flash]) and one mutable
    ref ([autoRestartRef]).  Four effects react to committed state: the
    countdown interval, the expiry detector, the auto-restart and the
    flash-clear timeout.  The embedding below follows that structure:

    - a [State] record for the values a render closes over;
    - a [World] for the committed state together with what lives outside
      React state: the ref, the live interval, the pending timeout, and a
      counter of calls to [playBeep];
    - a queue of [Update]s for the [setX] calls of one batch;
    - each effect as a command on (world, queue), guarded by its dependency
      array, run in declaration order after each commit;
    - [settle], the render/effect loop that runs until no update is queued.

    One event (a tick, the flash timeout, a click) is processed to
    quiescence before the next one is taken. *)

From Stdlib Require Import ZArith List Bool Ascii String Lia.
Import ListNotations.
Open Scope Z_scope.

(** ** Data model *)

Inductive Phase : Type := focus | break.

Definition Phase_eqb (a b : Phase) : bool :=
  match a, b with
  | focus, focus | break, break => true
  | _, _ => false
  end.

Definition FOCUS_DURATION : Z := 25 * 60.
Definition BREAK_DURATION : Z := 5 * 60.

(** The five [useState] cells, as one render sees them. *)
Record State : Type := mkState {
  phase : Phase;
  timeLeft : Z;
  isRunning : bool;
  completedPomodoros : Z;
  flash : bool
}.

(** A queued [setX] call.  The value form [setX(v)] is the constant updater. *)
Inductive Update : Type :=
| setPhase (p : Phase)
| setTimeLeft (f : Z -> Z)
| setIsRunning (f : bool -> bool)
| setCompletedPomodoros (f : Z -> Z)
| setFlash (b : bool).

Definition apply_update (s : State) (u : Update) : State :=
  match u with
  | setPhase p => mkState p (timeLeft s) (isRunning s) (completedPomodoros s) (flash s)
  | setTimeLeft f => mkState (phase s) (f (timeLeft s)) (isRunning s) (completedPomodoros s) (flash s)
  | setIsRunning f => mkState (phase s) (timeLeft s) (f (isRunning s)) (completedPomodoros s) (flash s)
  | setCompletedPomodoros f => mkState (phase s) (timeLeft s) (isRunning s) (f (completedPomodoros s)) (flash s)
  | setFlash b => mkState (phase s) (timeLeft s) (isRunning s) (completedPomodoros s) b
  end.

(** Committed state plus everything the component holds outside of it:
    [autoRestartRef] is [autoRestartRef.current]; [interval] is the period of
    the live [setInterval], if any; [timeout] is the delay of the pending
    [setTimeout], if any; [beeps] counts the calls to [playBeep]. *)
Record World : Type := mkWorld {
  st : State;
  autoRestartRef : bool;
  interval : option Z;
  timeout : option Z;
  beeps : nat
}.

Definition Pending : Type := (World * list Update)%type.

(** ** Commands: the body of a handler or of an effect *)

Definition Cmd : Type := Pending -> Pending.

Definition skip : Cmd := fun x => x.
Definition seq (a b : Cmd) : Cmd := fun x => b (a x).
Notation "a ;; b" := (seq a b) (at level 61, right associativity).

Definition enqueue (u : Update) : Cmd :=
  fun '(w, q) => (w, q ++ [u]).

Definition setAutoRestartRef (b : bool) : Cmd :=
  fun '(w, q) => (mkWorld (st w) b (interval w) (timeout w) (beeps w), q).

Definition setInterval (ms : Z) : Cmd :=
  fun '(w, q) => (mkWorld (st w) (autoRestartRef w) (Some ms) (timeout w) (beeps w), q).

Definition clearInterval : Cmd :=
  fun '(w, q) => (mkWorld (st w) (autoRestartRef w) None (timeout w) (beeps w), q).

Definition setTimeout (ms : Z) : Cmd :=
  fun '(w, q) => (mkWorld (st w) (autoRestartRef w) (interval w) (Some ms) (beeps w), q).

Definition clearTimeout : Cmd :=
  fun '(w, q) => (mkWorld (st w) (autoRestartRef w) (interval w) None (beeps w), q).

(** [playBeep] swallows its own failure; all the machine sees is the call. *)
Definition playBeep : Cmd :=
  fun '(w, q) => (mkWorld (st w) (autoRestartRef w) (interval w) (timeout w) (S (beeps w)), q).

(** ** Effects *)

(** A dependency differs from the previous render (always, on mount). *)
Definition changed {A : Type} (eqb : A -> A -> bool) (dep : State -> A)
    (prev : option State) (s : State) : bool :=
  match prev with
  | None => true
  | Some p => negb (eqb (dep p) (dep s))
  end.

(** The cleanup a previous run returned, if that run got past its guard. *)
Definition cleanup (armed : State -> bool) (prev : option State) (c : Cmd) : Cmd :=
  match prev with
  | Some p => if armed p then c else skip
  | None => skip
  end.

(** The interval callback: [t => (t > 0 ? t - 1 : 0)]. *)
Definition decrement (t : Z) : Z := if t >? 0 then t - 1 else 0.

(** [useEffect(..., [isRunning])]: the countdown interval. *)
Definition countdownEffect (prev : option State) (s : State) : Cmd :=
  if changed Bool.eqb isRunning prev s then
    cleanup isRunning prev clearInterval ;;
    (if negb (isRunning s) then skip else setInterval 1000)
  else skip.

(** [useEffect(..., [timeLeft, isRunning, phase])]: natural expiry. *)
Definition expiryEffect (prev : option State) (s : State) : Cmd :=
  if changed Z.eqb timeLeft prev s
     || changed Bool.eqb isRunning prev s
     || changed Phase_eqb phase prev s then
    if negb (timeLeft s =? 0) || negb (isRunning s) then skip
    else
      enqueue (setIsRunning (fun _ => false)) ;;
      setAutoRestartRef true ;;
      playBeep ;;
      enqueue (setFlash true) ;;
      match phase s with
      | focus =>
          enqueue (setPhase break) ;;
          enqueue (setTimeLeft (fun _ => BREAK_DURATION))
      | break =>
          enqueue (setCompletedPomodoros (fun c => c + 1)) ;;
          enqueue (setPhase focus) ;;
          enqueue (setTimeLeft (fun _ => FOCUS_DURATION))
      end
  else skip.

(** [useEffect(..., [isRunning, timeLeft])]: auto-restart.  The ref is read
    when the effect runs, the running flag is the render's. *)
Definition autoRestartEffect (prev : option State) (s : State) : Cmd :=
  if changed Bool.eqb isRunning prev s || changed Z.eqb timeLeft prev s then
    fun x =>
      if negb (autoRestartRef (fst x)) || isRunning s then x
      else (setAutoRestartRef false ;; enqueue (setIsRunning (fun _ => true))) x
  else skip.

(** [useEffect(..., [flash])]: clear the flash after 800 ms. *)
Definition flashEffect (prev : option State) (s : State) : Cmd :=
  if changed Bool.eqb flash prev s then
    cleanup flash prev clearTimeout ;;
    (if negb (flash s) then skip else setTimeout 800)
  else skip.

(** All effects of one commit, in declaration order.  Each cleanup is run
    right before its own body; the two cleanups only clear a timer that no
    other effect reads, so running them all first gives the same result.
    The document-title effect queues nothing and touches none of the above;
    it is left out. *)
Definition run_effects (prev : option State) (w : World) : Pending :=
  let s := st w in
  (countdownEffect prev s ;;
   expiryEffect prev s ;;
   autoRestartEffect prev s ;;
   flashEffect prev s) (w, []).

(** ** The render loop *)

Definition commit (w : World) (q : list Update) : World :=
  mkWorld (fold_left apply_update q (st w))
          (autoRestartRef w) (interval w) (timeout w) (beeps w).

(** Re-render while updates are queued.  [None] means the fuel ran out. *)
Fixpoint settle (fuel : nat) (x : Pending) : option World :=
  match snd x with
  | [] => Some (fst x)
  | _ :: _ =>
      match fuel with
      | O => None
      | S fuel' =>
          let w := fst x in
          settle fuel' (run_effects (Some (st w)) (commit w (snd x)))
      end
  end.

(** [Object.is] on each of the five cells. *)
Definition State_eqb (a b : State) : bool :=
  Phase_eqb (phase a) (phase b)
  && (timeLeft a =? timeLeft b)
  && Bool.eqb (isRunning a) (isRunning b)
  && (completedPomodoros a =? completedPomodoros b)
  && Bool.eqb (flash a) (flash b).

(** The states committed on the way, in order.  A batch that leaves every
    cell as it was is bailed out of: nothing is committed for it (and, no
    dependency having changed, no effect runs after it). *)
Fixpoint renders (fuel : nat) (x : Pending) : list State :=
  match snd x with
  | [] => []
  | _ :: _ =>
      match fuel with
      | O => []
      | S fuel' =>
          let w := fst x in
          let w' := commit w (snd x) in
          (if State_eqb (st w) (st w') then [] else [st w'])
          ++ renders fuel' (run_effects (Some (st w)) w')
      end
  end.

(** ** Events and their handlers *)

Inductive Event : Type :=
  EvTick | EvFlashTimeout | EvStartPause | EvSkip | EvReset.

Definition isFocus (s : State) : bool := Phase_eqb (phase s) focus.

Definition initialDuration (s : State) : Z :=
  if isFocus s then FOCUS_DURATION else BREAK_DURATION.

(** [setIsRunning(r => !r)] *)
Definition handleStartPause : Cmd :=
  enqueue (setIsRunning negb).

Definition handleSkip : Cmd :=
  fun x =>
    (setAutoRestartRef false ;;
     match phase (st (fst x)) with
     | focus =>
         enqueue (setPhase break) ;;
         enqueue (setTimeLeft (fun _ => BREAK_DURATION))
     | break =>
         enqueue (setPhase focus) ;;
         enqueue (setTimeLeft (fun _ => FOCUS_DURATION))
     end) x.

Definition handleReset : Cmd :=
  fun x =>
    (setAutoRestartRef false ;;
     enqueue (setIsRunning (fun _ => false)) ;;
     enqueue (setTimeLeft
                (fun _ => if isFocus (st (fst x)) then FOCUS_DURATION
                          else BREAK_DURATION))) x.

(** The interval callback fires only while an interval is live. *)
Definition onTick : Cmd :=
  fun x =>
    match interval (fst x) with
    | Some _ => enqueue (setTimeLeft decrement) x
    | None => x
    end.

(** The timeout callback fires once, and only if it was not cleared. *)
Definition onFlashTimeout : Cmd :=
  fun x =>
    match timeout (fst x) with
    | Some _ => (clearTimeout ;; enqueue (setFlash false)) x
    | None => x
    end.

Definition handler (e : Event) : Cmd :=
  match e with
  | EvTick => onTick
  | EvFlashTimeout => onFlashTimeout
  | EvStartPause => handleStartPause
  | EvSkip => handleSkip
  | EvReset => handleReset
  end.

Definition FUEL : nat := 8.

Definition step (e : Event) (w : World) : option World :=
  settle FUEL (handler e (w, [])).

Fixpoint run (es : list Event) (w : World) : option World :=
  match es with
  | [] => Some w
  | e :: es' =>
      match step e w with
      | Some w' => run es' w'
      | None => None
      end
  end.

(** ** Mount *)

Definition initialState : State :=
  mkState focus FOCUS_DURATION false 0 false.

Definition initialWorld : World :=
  mkWorld initialState false None None 0%nat.

Definition mount : option World :=
  settle FUEL (run_effects None initialWorld).

(** ** Derived values *)

Definition startLabel (s : State) : string :=
  if isRunning s then "暂停"%string
  else if timeLeft s =? initialDuration s then "开始"%string
  else "继续"%string.

(** [%] on JS numbers truncates towards zero: [Z.rem]. *)
Definition cyclePos (completed : Z) : Z := Z.rem completed 4.

Definition filledDots (completed : Z) : Z :=
  if (completed >? 0) && (cyclePos completed =? 0) then 4
  else cyclePos completed.

(** ** Reachability *)

Inductive reachable : World -> Prop :=
| reachable_mount : reachable initialWorld
| reachable_step : forall e w w',
    reachable w -> step e w = Some w' -> reachable w'.

(** ** Specification-side vocabulary *)

Definition duration (p : Phase) : Z :=
  match p with
  | focus => FOCUS_DURATION
  | break => BREAK_DURATION
  end.

Definition other (p : Phase) : Phase :=
  match p with
  | focus => break
  | break => focus
  end.

Definition bounded (s : State) : Prop :=
  0 <= timeLeft s <= duration (phase s).

(** What holds of a world between two events. *)
Record quiescent (w : World) : Prop := mkQuiescent {
  q_ref : autoRestartRef w = false;
  q_interval : interval w = if isRunning (st w) then Some 1000 else None;
  q_timeout : timeout w = if flash (st w) then Some 800 else None;
  q_time : 0 < timeLeft (st w) <= duration (phase (st w))
}.

(** The state rendered in response to a handler, before any effect runs. *)
Definition rendered (h : Cmd) (w : World) : State :=
  let x := h (w, []) in st (commit (fst x) (snd x)).

(** The transition table of the engine, one row per event, for a world at
    rest.  [expire] is the natural-expiry row followed by the auto-restart. *)
Definition expire (w : World) : World :=
  let s := st w in
  mkWorld (mkState (other (phase s)) (duration (other (phase s))) true
                   (match phase s with
                    | focus => completedPomodoros s
                    | break => completedPomodoros s + 1
                    end)
                   true)
          false (Some 1000) (Some 800) (S (beeps w)).

Definition table (e : Event) (w : World) : World :=
  let s := st w in
  match e with
  | EvTick =>
      if isRunning s then
        if timeLeft s =? 1 then expire w
        else mkWorld (mkState (phase s) (timeLeft s - 1) true
                              (completedPomodoros s) (flash s))
                     (autoRestartRef w) (interval w) (timeout w) (beeps w)
      else w
  | EvFlashTimeout =>
      if flash s then
        mkWorld (mkState (phase s) (timeLeft s) (isRunning s)
                         (completedPomodoros s) false)
                (autoRestartRef w) (interval w) None (beeps w)
      else w
  | EvStartPause =>
      mkWorld (mkState (phase s) (timeLeft s) (negb (isRunning s))
                       (completedPomodoros s) (flash s))
              (autoRestartRef w)
              (if isRunning s then None else Some 1000)
              (timeout w) (beeps w)
  | EvSkip =>
      mkWorld (mkState (other (phase s)) (duration (other (phase s)))
                       (isRunning s) (completedPomodoros s) (flash s))
              false (interval w) (timeout w) (beeps w)
  | EvReset =>
      mkWorld (mkState (phase s) (duration (phase s)) false
                       (completedPomodoros s) (flash s))
              false (if isRunning s then None else interval w)
              (timeout w) (beeps w)
  end.

(** The world [w] with another [timeLeft]. *)
Definition with_timeLeft (t : Z) (w : World) : World :=
  mkWorld (mkState (phase (st w)) t (isRunning (st w))
                   (completedPomodoros (st w)) (flash (st w)))
          (autoRestartRef w) (interval w) (timeout w) (beeps w).

(** The worlds of the 25 + 5 minute walk from mount. *)
Definition runningFocus : World :=
  mkWorld (mkState focus 1500 true 0 false) false (Some 1000) None 0%nat.

Definition lastSecondFocus : World :=
  mkWorld (mkState focus 1 true 0 false) false (Some 1000) None 0%nat.

Definition runningBreak : World :=
  mkWorld (mkState break 300 true 0 true) false (Some 1000) (Some 800) 1%nat.

Definition lastSecondBreak : World :=
  mkWorld (mkState break 1 true 0 true) false (Some 1000) (Some 800) 1%nat.

(** ** Display: the clock, the title, the dots *)

(** The decimal digit [d], for [0 <= d <= 9]. *)
Definition digit (d : Z) : Ascii.ascii := Ascii.ascii_of_nat (48 + Z.to_nat d).

(** The decimal numeral of [n >= 0], most significant digit first. *)
Fixpoint digits (fuel : nat) (n : Z) : string :=
  match fuel with
  | O => EmptyString
  | S fuel' =>
      if n <? 10 then String (digit n) EmptyString
      else String.append (digits fuel' (n / 10))
                         (String (digit (n mod 10)) EmptyString)
  end.

(** [n.toString()] on an integer [n]. *)
Definition toString (n : Z) : string :=
  if n <? 0 then String "-"%char (digits (S (Z.to_nat (- n))) (- n))
  else digits (S (Z.to_nat n)) n.

Fixpoint fill (k : nat) (c : Ascii.ascii) : string :=
  match k with
  | O => EmptyString
  | S k' => String c (fill k' c)
  end.

(** [s.padStart(n, c)] with a one-character filler: never shortens [s]. *)
Definition padStart (n : nat) (c : Ascii.ascii) (s : string) : string :=
  String.append (fill (n - String.length s) c) s.

(** [Math.floor(seconds / 60)] is the floor quotient, [seconds % 60] the
    truncated remainder. *)
Definition formatTime (seconds : Z) : string :=
  let m := padStart 2 "0"%char (toString (seconds / 60)) in
  let s := padStart 2 "0"%char (toString (Z.rem seconds 60)) in
  String.append m (String.append ":"%string s).

(** What the title effect writes to [document.title]. *)
Definition documentTitle (s : State) : string :=
  String.append (formatTime (timeLeft s))
    (String.append " · "%string
       (String.append
          (if Phase_eqb (phase s) focus then "专注"%string else "休息"%string)
          " | 番茄钟"%string)).

(** The class of the dot in slot [i] of [[0, 1, 2, 3]]. *)
Definition dotClass (s : State) (i : Z) : string :=
  String.append "dot "%string
    (if i <? filledDots (completedPomodoros s)
     then if isFocus s then "focus"%string else "break"%string
     else "empty"%string).

Definition dotRow (s : State) : list string :=
  map (dotClass s) [0; 1; 2; 3].

(** ** Further vocabulary *)

(** How the count, the beeps and the flash hang together. *)
Record tallied (w : World) : Prop := mkTallied {
  t_count : 0 <= completedPomodoros (st w) <= Z.of_nat (beeps w);
  t_flash : flash (st w) = true -> (0 < beeps w)%nat
}.

(** The tick that takes a running timer from its last second to zero. *)
Definition expiring (e : Event) (w : World) : bool :=
  match e with
  | EvTick => isRunning (st w) && (timeLeft (st w) =? 1)
  | _ => false
  end.

Definition filled (c : string) : bool :=
  negb (String.eqb c "dot empty"%string).

(** * Proofs *)

(** One turn of the loop, as an equation. *)
Lemma settle_S (fuel : nat) (x : Pending) :
  settle (S fuel) x =
  match snd x with
  | [] => Some (fst x)
  | _ :: _ => settle fuel (run_effects (Some (st (fst x))) (commit (fst x) (snd x)))
  end.
Proof. destruct x as [w [|u q]]; reflexivity. Qed.

Lemma renders_S (fuel : nat) (x : Pending) :
  renders (S fuel) x =
  match snd x with
  | [] => []
  | _ :: _ =>
      (if State_eqb (st (fst x)) (st (commit (fst x) (snd x))) then []
       else [st (commit (fst x) (snd x))])
      ++ renders fuel (run_effects (Some (st (fst x))) (commit (fst x) (snd x)))
  end.
Proof. destruct x as [w [|u q]]; reflexivity. Qed.

(** Evaluate handlers and effects, leaving the loop and integer tests folded. *)
Ltac effects :=
  cbv [run_effects commit handler rendered
       onTick onFlashTimeout handleStartPause handleSkip handleReset
       countdownEffect expiryEffect autoRestartEffect flashEffect
       changed cleanup skip seq enqueue setAutoRestartRef setInterval
       clearInterval setTimeout clearTimeout playBeep apply_update
       isFocus initialDuration Phase_eqb State_eqb duration other
       FOCUS_DURATION BREAK_DURATION decrement
       st autoRestartRef interval timeout beeps
       phase timeLeft isRunning completedPomodoros flash
       fst snd app fold_left negb orb andb Bool.eqb] in *.

Ltac ztests :=
  repeat match goal with
         | |- context [Z.gtb ?a ?b] =>
             destruct (Z.gtb_spec a b); try lia; effects
         | |- context [Z.eqb ?a ?b] =>
             destruct (Z.eqb_spec a b); try lia; effects
         end.

Ltac turn :=
  first [rewrite settle_S | rewrite renders_S]; effects; ztests.

Ltac machine :=
  unfold step, FUEL in *; effects; ztests; repeat turn.

Lemma initialDuration_duration (s : State) :
  initialDuration s = duration (phase s).
Proof. destruct s as [[] t r c f]; reflexivity. Qed.

Lemma mount_initial : mount = Some initialWorld.
Proof. reflexivity. Qed.

Lemma step_skip_eq (w : World) :
  step EvSkip w =
  Some (mkWorld (mkState (other (phase (st w))) (duration (other (phase (st w))))
                         (isRunning (st w)) (completedPomodoros (st w)) (flash (st w)))
                false (interval w) (timeout w) (beeps w)).
Proof.
  destruct w as [[p t r c f] a i o b].
  destruct p, r, f; machine; reflexivity.
Qed.

Lemma step_reset_eq (w : World) :
  step EvReset w =
  Some (mkWorld (mkState (phase (st w)) (duration (phase (st w))) false
                         (completedPomodoros (st w)) (flash (st w)))
                false (if isRunning (st w) then None else interval w)
                (timeout w) (beeps w)).
Proof.
  destruct w as [[p t r c f] a i o b].
  destruct p, r, f; machine; reflexivity.
Qed.

Ltac open_world w :=
  let p := fresh "p" in let t := fresh "t" in let r := fresh "r" in
  let c := fresh "c" in let f := fresh "f" in let a := fresh "a" in
  let i := fresh "i" in let o := fresh "o" in let b := fresh "b" in
  destruct w as [[p t r c f] a i o b].

Ltac at_rest H :=
  destruct H as [Hr Hi Ho Ht]; effects; subst.

Lemma step_table (e : Event) (w : World) :
  quiescent w -> step e w = Some (table e w).
Proof.
  intros Q. open_world w. at_rest Q.
  destruct e, p, r, f; unfold table, expire; machine; reflexivity.
Qed.

Lemma table_quiescent (e : Event) (w : World) :
  quiescent w -> quiescent (table e w).
Proof.
  intros Q. open_world w. at_rest Q.
  destruct e, p, r, f; unfold table, expire; machine;
    constructor; effects; try reflexivity; lia.
Qed.

Lemma initialWorld_quiescent : quiescent initialWorld.
Proof. constructor; cbv; intuition congruence. Qed.

Lemma reachable_quiescent (w : World) : reachable w -> quiescent w.
Proof.
  induction 1 as [|e w w' _ IH E].
  - exact initialWorld_quiescent.
  - rewrite (step_table e w IH) in E. injection E as <-.
    now apply table_quiescent.
Qed.

Lemma run_reachable (es : list Event) :
  forall w w', reachable w -> run es w = Some w' -> reachable w'.
Proof.
  induction es as [|e es IH]; intros w w' R E; cbn [run] in E.
  - now injection E as <-.
  - destruct (step e w) as [w1|] eqn:E1; [|discriminate].
    eapply IH; [|exact E]. eapply reachable_step; eassumption.
Qed.

(** The loop always comes to rest within [FUEL] turns, whatever the world. *)
Lemma step_total (e : Event) (w : World) : exists w', step e w = Some w'.
Proof.
  open_world w.
  destruct e, p, r, f, a, i, o; machine; eexists; reflexivity.
Qed.

Lemma run_ticks (n : nat) :
  forall w, quiescent w -> isRunning (st w) = true ->
            Z.of_nat n < timeLeft (st w) ->
            run (repeat EvTick n) w =
            Some (with_timeLeft (timeLeft (st w) - Z.of_nat n) w).
Proof.
  induction n as [|n IH]; intros w Q R L.
  - cbn [repeat run]. f_equal. open_world w. cbn. now rewrite Z.sub_0_r.
  - cbn [repeat run]. rewrite (step_table EvTick w Q).
    assert (Q' : quiescent (table EvTick w)) by now apply table_quiescent.
    revert Q'. cbn [table]. rewrite R.
    destruct (Z.eqb_spec (timeLeft (st w)) 1) as [E|E]; [lia|].
    intros Q'. rewrite (IH _ Q'); cbn [st timeLeft isRunning]; [|reflexivity|lia].
    unfold with_timeLeft.
    cbn [st phase timeLeft isRunning completedPomodoros flash
         autoRestartRef interval timeout beeps].
    rewrite R.
    replace (timeLeft (st w) - 1 - Z.of_nat n)
      with (timeLeft (st w) - Z.of_nat (S n)) by lia.
    reflexivity.
Qed.

Lemma run_app (es1 es2 : list Event) :
  forall w, run (es1 ++ es2) w =
            match run es1 w with
            | Some w' => run es2 w'
            | None => None
            end.
Proof.
  induction es1 as [|e es1 IH]; intros w; cbn [List.app run].
  - reflexivity.
  - destruct (step e w) as [w1|]; [apply IH|reflexivity].
Qed.

Lemma with_timeLeft_quiescent (t : Z) (w : World) :
  quiescent w -> 0 < t <= timeLeft (st w) -> quiescent (with_timeLeft t w).
Proof.
  intros [Hr Hi Ho Ht] B. constructor; cbn; try assumption. lia.
Qed.

(** A running timer at rest expires after as many ticks as seconds left. *)
Lemma run_until_expiry (w : World) :
  quiescent w -> isRunning (st w) = true ->
  run (repeat EvTick (Z.to_nat (timeLeft (st w)))) w = Some (expire w).
Proof.
  intros Q Run. pose proof (q_time w Q) as Ht.
  replace (Z.to_nat (timeLeft (st w)))
    with (Z.to_nat (timeLeft (st w) - 1) + 1)%nat by lia.
  rewrite repeat_app, run_app.
  rewrite (run_ticks _ w Q Run) by lia.
  rewrite Z2Nat.id by lia.
  replace (timeLeft (st w) - (timeLeft (st w) - 1)) with 1 by lia.
  cbn [repeat run].
  assert (Q1 : quiescent (with_timeLeft 1 w))
    by (apply with_timeLeft_quiescent; [assumption|lia]).
  rewrite (step_table EvTick _ Q1).
  unfold table, expire, with_timeLeft.
  cbn [st phase timeLeft isRunning completedPomodoros flash beeps].
  rewrite Run. reflexivity.
Qed.

Lemma expire_quiescent (w : World) : quiescent (expire w).
Proof.
  unfold expire. constructor; cbn; try reflexivity.
  destruct (phase (st w)); cbv; intuition congruence.
Qed.

(** Every commit of one event keeps [timeLeft] within the phase's bounds. *)
Lemma renders_bounded (e : Event) (w : World) :
  quiescent w -> Forall bounded (renders FUEL (handler e (w, []))).
Proof.
  intros Q. open_world w. at_rest Q.
  destruct e, p, r, f; machine;
    repeat (constructor; [unfold bounded; effects; lia|]); constructor.
Qed.

(** C1.  In every reachable world [0 <= timeLeft <= duration phase], with
    [duration focus = 1500] and [duration break = 300]; each event (tick,
    flash timeout, start/pause, skip, reset) leads from there to a world
    where the bound holds again, and it holds of every state committed on
    the way, the expiry render included. *)
Theorem time_within_phase_duration (w : World) :
  reachable w ->
  duration focus = 1500 /\ duration break = 300 /\
  bounded (st w) /\
  forall e : Event,
    (exists w', step e w = Some w' /\ bounded (st w')) /\
    Forall bounded (renders FUEL (handler e (w, []))).
Proof.
  intros R. pose proof (reachable_quiescent w R) as Q.
  repeat split; try reflexivity.
  - destruct Q as [_ _ _ Ht]. lia.
  - destruct Q as [_ _ _ Ht]. lia.
  - exists (table e w). split; [now apply step_table|].
    destruct (table_quiescent e w Q) as [_ _ _ Ht]. unfold bounded. lia.
  - now apply renders_bounded.
Qed.

Lemma lastSecondBreak_reachable : reachable lastSecondBreak.
Proof.
  apply (run_reachable (EvStartPause :: repeat EvTick 1799) initialWorld);
    [exact reachable_mount | vm_compute; reflexivity].
Qed.

Lemma time_within_phase_duration_witness :
  reachable lastSecondBreak /\ bounded (st lastSecondBreak).
Proof.
  split; [exact lastSecondBreak_reachable|].
  exact (proj1 (proj2 (proj2
    (time_within_phase_duration lastSecondBreak lastSecondBreak_reachable)))).
Defined.

(** C2.  From any reachable world in the state (focus, 1500, not running,
    no flash), whatever its count [c] and its number of beeps [b]: the start
    command gives the running focus world.  Any [n < 1500] ticks from there
    only lower [timeLeft] to [1500 - n]: no expiry, no beep.  After 1499 the
    timer stands at one second; the 1500th tick commits (focus, 0, running),
    then the expiry (break, 300, not running, flash), then the auto-restart
    (break, 300, running, flash).  At rest the world is (break, 300,
    running) with exactly one more call to [playBeep], the flash on, the
    800 ms timeout pending and [completedPomodoros] still [c]; when the
    timeout fires the flash is off and nothing else has moved. *)
Theorem focus_expiry_after_1500_ticks (w : World) :
  reachable w ->
  phase (st w) = focus -> timeLeft (st w) = 1500 ->
  isRunning (st w) = false -> flash (st w) = false ->
  let c := completedPomodoros (st w) in
  let b := beeps w in
  let started :=
    mkWorld (mkState focus 1500 true c false) false (Some 1000) None b in
  let lastSecond :=
    mkWorld (mkState focus 1 true c false) false (Some 1000) None b in
  let expired :=
    mkWorld (mkState break 300 true c true)
            false (Some 1000) (Some 800) (S b) in
  step EvStartPause w = Some started /\
  (forall n : nat,
      Z.of_nat n < 1500 ->
      run (repeat EvTick n) started =
      Some (with_timeLeft (1500 - Z.of_nat n) started)) /\
  run (repeat EvTick (Z.to_nat 1499)) started = Some lastSecond /\
  renders FUEL (handler EvTick (lastSecond, [])) =
    [mkState focus 0 true c false;
     mkState break 300 false c true;
     mkState break 300 true c true] /\
  step EvTick lastSecond = Some expired /\
  run (EvStartPause :: repeat EvTick (Z.to_nat 1500)) w = Some expired /\
  step EvFlashTimeout expired =
    Some (mkWorld (mkState break 300 true c false)
                  false (Some 1000) None (S b)).
Proof.
  intros R P T Idle F c b started lastSecond expired.
  pose proof (reachable_quiescent w R) as Q.
  assert (E0 : step EvStartPause w = Some started).
  { rewrite (step_table _ w Q). subst started c b.
    open_world w. at_rest Q. reflexivity. }
  assert (Q1 : quiescent started) by (constructor; cbv; intuition congruence).
  assert (Q2 : quiescent lastSecond) by (constructor; cbv; intuition congruence).
  assert (Q3 : quiescent expired) by (constructor; cbv; intuition congruence).
  assert (E1 : forall n : nat,
             Z.of_nat n < 1500 ->
             run (repeat EvTick n) started =
             Some (with_timeLeft (1500 - Z.of_nat n) started)).
  { intros n L. apply (run_ticks n started Q1 eq_refl). exact L. }
  assert (E2 : run (repeat EvTick (Z.to_nat 1500)) started = Some expired).
  { exact (run_until_expiry started Q1 eq_refl). }
  split; [exact E0|].
  split; [exact E1|].
  split.
  { rewrite (run_ticks _ started Q1 eq_refl) by (rewrite Z2Nat.id; cbn; lia).
    reflexivity. }
  split.
  { subst lastSecond. machine. reflexivity. }
  split.
  { rewrite (step_table _ lastSecond Q2). reflexivity. }
  split.
  { cbn [run]. rewrite E0. exact E2. }
  rewrite (step_table _ expired Q3). reflexivity.
Qed.

Lemma focus_expiry_after_1500_ticks_witness :
  step EvStartPause initialWorld = Some runningFocus /\
  run (repeat EvTick (Z.to_nat 1499)) runningFocus = Some lastSecondFocus /\
  run (EvStartPause :: repeat EvTick (Z.to_nat 1500)) initialWorld
  = Some runningBreak.
Proof.
  destruct (focus_expiry_after_1500_ticks initialWorld reachable_mount
              eq_refl eq_refl eq_refl eq_refl)
    as [E0 [_ [E1 [_ [_ [E2 _]]]]]].
  split; [exact E0|split; [exact E1|exact E2]].
Defined.

(** C3.  When a tick takes a running break from its last second to zero,
    the machine comes to rest in (focus, 1500, running) with
    [completedPomodoros] one higher and one more beep; in particular 300
    ticks from the running break world reach the running focus world with a
    count of 1.  Skip and reset, from any world, leave the count alone. *)
Theorem break_expiry_counts_one :
  (forall w : World,
      reachable w ->
      phase (st w) = break -> isRunning (st w) = true -> timeLeft (st w) = 1 ->
      exists w',
        step EvTick w = Some w' /\
        phase (st w') = focus /\ timeLeft (st w') = 1500 /\
        isRunning (st w') = true /\
        completedPomodoros (st w') = completedPomodoros (st w) + 1 /\
        beeps w' = S (beeps w)) /\
  run (repeat EvTick 300) runningBreak =
    Some (mkWorld (mkState focus 1500 true 1 true)
                  false (Some 1000) (Some 800) 2%nat) /\
  (forall w : World,
      exists w', step EvSkip w = Some w' /\
                 completedPomodoros (st w') = completedPomodoros (st w)) /\
  (forall w : World,
      exists w', step EvReset w = Some w' /\
                 completedPomodoros (st w') = completedPomodoros (st w)).
Proof.
  split; [|split; [|split]].
  - intros w R P Run T. pose proof (reachable_quiescent w R) as Q.
    exists (table EvTick w). split; [now apply step_table|].
    cbn [table]. rewrite Run, T. cbn [Z.eqb Pos.eqb]. unfold expire.
    rewrite P. cbn [st phase timeLeft isRunning completedPomodoros beeps other duration].
    repeat split.
  - vm_compute. reflexivity.
  - intros w. eexists. split; [apply step_skip_eq|reflexivity].
  - intros w. eexists. split; [apply step_reset_eq|reflexivity].
Qed.

Lemma break_expiry_counts_one_witness :
  exists w',
    step EvTick lastSecondBreak = Some w' /\
    phase (st w') = focus /\ timeLeft (st w') = 1500 /\
    isRunning (st w') = true /\
    completedPomodoros (st w') = 0 + 1 /\
    beeps w' = 2%nat.
Proof.
  apply (proj1 break_expiry_counts_one lastSecondBreak).
  - exact lastSecondBreak_reachable.
  - reflexivity.
  - reflexivity.
  - reflexivity.
Defined.

(** C4.  Skip, from any world: the phase becomes the other one and
    [timeLeft] its full duration (300 out of focus, 1500 out of break);
    [isRunning] and the live interval stay as they were; the count, the
    number of beeps, the flash and its timeout are untouched, and the one
    commit it causes is that of the new phase. *)
Theorem skip_switches_phase_only (w : World) :
  exists w',
    step EvSkip w = Some w' /\
    phase (st w') = other (phase (st w)) /\
    timeLeft (st w') =
      match phase (st w) with focus => 300 | break => 1500 end /\
    isRunning (st w') = isRunning (st w) /\
    interval w' = interval w /\
    completedPomodoros (st w') = completedPomodoros (st w) /\
    beeps w' = beeps w /\
    flash (st w') = flash (st w) /\
    timeout w' = timeout w /\
    renders FUEL (handler EvSkip (w, [])) = [st w'].
Proof.
  eexists. split; [apply step_skip_eq|].
  open_world w. destruct p, r, f; machine; repeat split.
Qed.

(** C5.  Reset, from any world: [isRunning] becomes false and [timeLeft] the
    full duration of the current phase (1500 in focus, 300 in break); phase
    and count are unchanged, no beep is played, the flash and its timeout
    are untouched, and the interval is gone.  It commits that state once,
    or nothing at all when the world was already stopped at the full
    duration. *)
Theorem reset_restores_current_phase (w : World) :
  exists w',
    step EvReset w = Some w' /\
    isRunning (st w') = false /\
    timeLeft (st w') =
      match phase (st w) with focus => 1500 | break => 300 end /\
    phase (st w') = phase (st w) /\
    completedPomodoros (st w') = completedPomodoros (st w) /\
    beeps w' = beeps w /\
    flash (st w') = flash (st w) /\
    timeout w' = timeout w /\
    (isRunning (st w) = true -> interval w' = None) /\
    renders FUEL (handler EvReset (w, [])) =
      (if State_eqb (st w) (st w') then [] else [st w']).
Proof.
  eexists. split; [apply step_reset_eq|].
  open_world w. destruct p, r, f; machine; repeat split; discriminate.
Qed.

(** C6.  A tick in a reachable world.  While running, the state committed by
    the interval callback has [timeLeft - 1] where [timeLeft > 0] and [0]
    otherwise, so never a negative value; away from the last second the
    world then rests there.  While not running there is no interval, no
    callback, and the world is left as it is.  The callback itself maps any
    [t > 0] to [t - 1], anything else to [0]. *)
Theorem tick_decrements_clamped (w : World) :
  reachable w ->
  let t := timeLeft (st w) in
  let t' := timeLeft (rendered onTick w) in
  (isRunning (st w) = true ->
     (0 < t -> t' = t - 1) /\ (t <= 0 -> t' = 0) /\
     (1 < t -> step EvTick w = Some (with_timeLeft (t - 1) w))) /\
  (isRunning (st w) = false -> t' = t /\ step EvTick w = Some w) /\
  0 <= t' /\
  (forall x : Z, (0 < x -> decrement x = x - 1) /\
                 (x <= 0 -> decrement x = 0) /\
                 0 <= decrement x).
Proof.
  intros R. pose proof (reachable_quiescent w R) as Q.
  assert (D : forall x : Z, (0 < x -> decrement x = x - 1) /\
                            (x <= 0 -> decrement x = 0) /\
                            0 <= decrement x).
  { intros x. unfold decrement. destruct (Z.gtb_spec x 0); repeat split; lia. }
  rewrite (step_table EvTick w Q).
  open_world w. at_rest Q. unfold with_timeLeft, table. effects.
  destruct r; effects.
  - split; [intros _|split; [discriminate|split; [|exact D]]].
    + split; [|split]; intros L.
      * now apply D.
      * lia.
      * destruct (Z.eqb_spec t 1); [lia|reflexivity].
    + apply D.
  - split; [discriminate|split; [|split; [lia|exact D]]].
    intros _. split; reflexivity.
Qed.

Lemma tick_decrements_clamped_witness :
  timeLeft (rendered onTick lastSecondBreak) = 0 /\
  timeLeft (rendered onTick initialWorld) = 1500.
Proof.
  destruct (tick_decrements_clamped lastSecondBreak lastSecondBreak_reachable)
    as [Hrun _].
  destruct (tick_decrements_clamped initialWorld reachable_mount)
    as [_ [Hidle _]].
  split.
  - apply (proj1 (Hrun eq_refl)). reflexivity.
  - apply (Hidle eq_refl).
Defined.

(** C7.  The button label is the pause label exactly when running, the
    start label exactly when not running with [timeLeft] at the full
    duration of the current phase, and the resume label in every other
    case. *)
Theorem startLabel_cases (s : State) :
  (startLabel s = "暂停"%string <-> isRunning s = true) /\
  (startLabel s = "开始"%string <->
     isRunning s = false /\ timeLeft s = duration (phase s)) /\
  (startLabel s = "继续"%string <->
     isRunning s = false /\ timeLeft s <> duration (phase s)).
Proof.
  unfold startLabel. rewrite initialDuration_duration.
  destruct (isRunning s);
    destruct (Z.eqb_spec (timeLeft s) (duration (phase s)));
    repeat split; intros; try discriminate; try tauto;
    match goal with H : _ /\ _ |- _ => destruct H; congruence end.
Qed.

(** C8.  For a count [c >= 0], [filledDots c] is 4 when [c > 0] and
    [c mod 4 = 0], and [c mod 4] otherwise; on 0, 1, 2, 3, 4, 5 it gives
    0, 1, 2, 3, 4, 1. *)
Theorem filledDots_cycle (c : Z) :
  0 <= c ->
  (0 < c /\ c mod 4 = 0 -> filledDots c = 4) /\
  (~ (0 < c /\ c mod 4 = 0) -> filledDots c = c mod 4) /\
  map filledDots [0; 1; 2; 3; 4; 5] = [0; 1; 2; 3; 4; 1].
Proof.
  intros H. unfold filledDots, cyclePos.
  rewrite (Z.rem_mod_nonneg c 4) by lia.
  destruct (Z.gtb_spec c 0); destruct (Z.eqb_spec (c mod 4) 0);
    cbn [andb]; repeat split; intros; try reflexivity; try lia; tauto.
Qed.

Lemma filledDots_cycle_witness :
  filledDots 8 = 4 /\ filledDots 6 = 6 mod 4.
Proof.
  split.
  - apply (proj1 (filledDots_cycle 8 ltac:(lia))). split; [lia|reflexivity].
  - apply (proj1 (proj2 (filledDots_cycle 6 ltac:(lia)))).
    intros [_ H]. discriminate H.
Defined.

(** C9.  Reset is idempotent: from any world, the world a reset comes to
    rest in is a fixed point of reset. *)
Theorem reset_idempotent (w : World) :
  exists w1, step EvReset w = Some w1 /\ step EvReset w1 = Some w1.
Proof.
  eexists. split; [apply step_reset_eq|].
  rewrite step_reset_eq. open_world w. destruct r; reflexivity.
Qed.

(** C10.  Start/pause queues a single update: the state it commits is the
    old one with [isRunning] negated, in any world.  In a reachable world
    the machine rests right there: phase, [timeLeft], count and flash are
    those of before, [isRunning] is negated, no beep is played, and the
    interval is live exactly when the timer now runs. *)
Theorem startPause_flips_running_only (w : World) :
  rendered handleStartPause w =
    mkState (phase (st w)) (timeLeft (st w)) (negb (isRunning (st w)))
            (completedPomodoros (st w)) (flash (st w)) /\
  (reachable w ->
   exists w',
     step EvStartPause w = Some w' /\
     isRunning (st w') = negb (isRunning (st w)) /\
     phase (st w') = phase (st w) /\
     timeLeft (st w') = timeLeft (st w) /\
     completedPomodoros (st w') = completedPomodoros (st w) /\
     flash (st w') = flash (st w) /\
     beeps w' = beeps w /\
     timeout w' = timeout w /\
     interval w' = (if isRunning (st w') then Some 1000 else None) /\
     renders FUEL (handler EvStartPause (w, [])) = [st w']).
Proof.
  split; [reflexivity|].
  intros R. pose proof (reachable_quiescent w R) as Q.
  exists (table EvStartPause w). split; [now apply step_table|].
  open_world w. at_rest Q. unfold table.
  destruct p, r, f; machine; repeat split.
Qed.

Lemma startPause_flips_running_only_witness :
  exists w',
    step EvStartPause lastSecondBreak = Some w' /\
    isRunning (st w') = false /\
    phase (st w') = break /\
    timeLeft (st w') = 1.
Proof.
  destruct (proj2 (startPause_flips_running_only lastSecondBreak)
                  lastSecondBreak_reachable)
    as [w' [E [Hr [Hp [Ht _]]]]].
  exists w'. repeat split; assumption.
Defined.

(** * Further properties of the engine *)

(** X1.  No event sends the component into a re-render loop: from any world
    the loop comes to rest after at most four commits, in the world of the
    last commit; from a reachable world three commits are enough. *)
Theorem settles_within_four_commits (e : Event) (w : World) :
  (exists w',
      step e w = Some w' /\
      st w' = last (renders FUEL (handler e (w, []))) (st w) /\
      (List.length (renders FUEL (handler e (w, []))) <= 4)%nat) /\
  (reachable w ->
   (List.length (renders FUEL (handler e (w, []))) <= 3)%nat).
Proof.
  split.
  - open_world w.
    destruct e, p, r, f, a, i, o; machine; subst;
      (eexists; split; [reflexivity|split; [reflexivity|cbn [List.length]; lia]]).
  - intros R. pose proof (reachable_quiescent w R) as Q.
    open_world w. at_rest Q.
    destruct e, p, r, f; machine; cbn [List.length]; lia.
Qed.

Lemma settles_within_four_commits_witness :
  (List.length (renders FUEL (handler EvTick (lastSecondBreak, []))) <= 3)%nat.
Proof.
  exact (proj2 (settles_within_four_commits EvTick lastSecondBreak)
               lastSecondBreak_reachable).
Defined.

(** X2.  Between events the timers follow the flags: the interval is live,
    with period 1000, exactly while [isRunning]; the timeout is pending, with
    delay 800, exactly while [flash]; no auto-restart is left over; and the
    clock never rests at zero. *)
Theorem timers_follow_flags (w : World) :
  reachable w ->
  interval w = (if isRunning (st w) then Some 1000 else None) /\
  timeout w = (if flash (st w) then Some 800 else None) /\
  autoRestartRef w = false /\
  0 < timeLeft (st w).
Proof.
  intros R. destruct (reachable_quiescent w R) as [Hr Hi Ho Ht].
  repeat split; try assumption. lia.
Qed.

Lemma timers_follow_flags_witness :
  interval lastSecondBreak = Some 1000 /\
  timeout lastSecondBreak = Some 800 /\
  autoRestartRef lastSecondBreak = false /\
  0 < timeLeft (st lastSecondBreak).
Proof.
  exact (timers_follow_flags lastSecondBreak lastSecondBreak_reachable).
Defined.

Lemma table_tallied (e : Event) (w : World) :
  quiescent w -> tallied w -> tallied (table e w).
Proof.
  intros Q [Hc Hf]. open_world w. at_rest Q.
  destruct e, p, r, f; unfold table, expire; effects; ztests;
    constructor; effects; try (intros; lia); try lia;
    try (intros; discriminate); try assumption.
Qed.

Lemma reachable_tallied (w : World) : reachable w -> tallied w.
Proof.
  induction 1 as [|e w w' R IH E].
  - constructor; cbn; [lia|discriminate].
  - pose proof (reachable_quiescent w R) as Q.
    rewrite (step_table e w Q) in E. injection E as <-.
    now apply table_tallied.
Qed.

(** X3.  In every reachable world the count is non-negative and at most
    the number of beeps played, and the flash is on only if a beep has been
    played. *)
Theorem count_bounded_by_beeps (w : World) :
  reachable w ->
  0 <= completedPomodoros (st w) <= Z.of_nat (beeps w) /\
  (flash (st w) = true -> (0 < beeps w)%nat).
Proof.
  intros R. destruct (reachable_tallied w R) as [Hc Hf]. split; assumption.
Qed.

Lemma count_bounded_by_beeps_witness :
  0 <= completedPomodoros (st lastSecondBreak)
    <= Z.of_nat (beeps lastSecondBreak).
Proof.
  exact (proj1 (count_bounded_by_beeps lastSecondBreak
                  lastSecondBreak_reachable)).
Defined.

(** X4.  From a reachable world, an event plays a beep exactly when it is
    the tick that takes a running timer from one second to zero, and then
    exactly one; the count rises, by one, exactly when that happens in the
    break phase; and the flash comes on only then.  No click and no flash
    timeout ever beeps or counts. *)
Theorem beep_and_count_only_on_expiry (e : Event) (w : World) :
  reachable w ->
  exists w',
    step e w = Some w' /\
    beeps w' = (if expiring e w then S (beeps w) else beeps w) /\
    completedPomodoros (st w') =
      (if expiring e w && Phase_eqb (phase (st w)) break
       then completedPomodoros (st w) + 1
       else completedPomodoros (st w)) /\
    (flash (st w) = false -> flash (st w') = expiring e w).
Proof.
  intros R. pose proof (reachable_quiescent w R) as Q.
  exists (table e w). split; [now apply step_table|].
  open_world w. at_rest Q.
  destruct e, p, r, f; unfold table, expire, expiring; effects; ztests;
    repeat split; intros; try reflexivity; discriminate.
Qed.

Lemma beep_and_count_only_on_expiry_witness :
  exists w',
    step EvTick lastSecondBreak = Some w' /\
    beeps w' = 2%nat /\
    completedPomodoros (st w') = 1.
Proof.
  destruct (beep_and_count_only_on_expiry EvTick lastSecondBreak
              lastSecondBreak_reachable) as [w' [E [Hb [Hc _]]]].
  exists w'. repeat split; assumption.
Defined.

(** X5.  A running timer with [t] seconds left expires on the [t]-th tick
    and not before: fewer ticks only lower the clock; the [t]-th one leaves
    the other phase running at its full duration, the flash on, one more
    beep, and the count one higher if the phase that ended was the break. *)
Theorem expiry_after_timeLeft_ticks (w : World) :
  reachable w -> isRunning (st w) = true ->
  (forall n : nat,
      Z.of_nat n < timeLeft (st w) ->
      run (repeat EvTick n) w =
      Some (with_timeLeft (timeLeft (st w) - Z.of_nat n) w)) /\
  run (repeat EvTick (Z.to_nat (timeLeft (st w)))) w =
  Some (mkWorld
          (mkState (other (phase (st w))) (duration (other (phase (st w))))
                   true
                   (match phase (st w) with
                    | focus => completedPomodoros (st w)
                    | break => completedPomodoros (st w) + 1
                    end)
                   true)
          false (Some 1000) (Some 800) (S (beeps w))).
Proof.
  intros R Run. pose proof (reachable_quiescent w R) as Q. split.
  - intros n L. now apply run_ticks.
  - now apply run_until_expiry.
Qed.

Lemma expiry_after_timeLeft_ticks_witness :
  run (repeat EvTick (Z.to_nat 1)) lastSecondBreak =
  Some (mkWorld (mkState focus 1500 true 1 true)
                false (Some 1000) (Some 800) 2%nat).
Proof.
  exact (proj2 (expiry_after_timeLeft_ticks lastSecondBreak
                  lastSecondBreak_reachable eq_refl)).
Defined.

(** X6.  One full cycle.  From a reachable world that runs a phase at its
    full duration, 1800 ticks (25 + 5 minutes) come back to the same phase,
    running at its full duration, with the count one higher, two more
    beeps, and the flash on. *)
Theorem full_cycle_counts_one (w : World) :
  reachable w -> isRunning (st w) = true ->
  timeLeft (st w) = duration (phase (st w)) ->
  run (repeat EvTick (Z.to_nat (FOCUS_DURATION + BREAK_DURATION))) w =
  Some (mkWorld
          (mkState (phase (st w)) (duration (phase (st w))) true
                   (completedPomodoros (st w) + 1) true)
          false (Some 1000) (Some 800) (S (S (beeps w)))).
Proof.
  intros R Run T. pose proof (reachable_quiescent w R) as Q.
  pose proof (run_until_expiry w Q Run) as E1.
  pose proof (run_until_expiry (expire w) (expire_quiescent w) eq_refl) as E2.
  replace (Z.to_nat (FOCUS_DURATION + BREAK_DURATION))
    with (Z.to_nat (timeLeft (st w))
          + Z.to_nat (timeLeft (st (expire w))))%nat.
  - rewrite repeat_app, run_app, E1, E2.
    unfold expire.
    cbn [st phase timeLeft isRunning completedPomodoros flash beeps].
    destruct (phase (st w)); reflexivity.
  - rewrite T. unfold expire. cbn [st phase timeLeft].
    destruct (phase (st w)); reflexivity.
Qed.

Lemma full_cycle_counts_one_witness :
  run (repeat EvTick (Z.to_nat (FOCUS_DURATION + BREAK_DURATION))) runningBreak =
  Some (mkWorld (mkState break 300 true 1 true)
                false (Some 1000) (Some 800) 3%nat).
Proof.
  apply (full_cycle_counts_one runningBreak).
  - apply (run_reachable (EvStartPause :: repeat EvTick 1500) initialWorld);
      [exact reachable_mount | vm_compute; reflexivity].
  - reflexivity.
  - reflexivity.
Defined.

(** X7.  In a reachable world start/pause undoes itself: two clicks in a
    row lead back to the very same world, timers included. *)
Theorem startPause_twice_is_identity (w : World) :
  reachable w -> run [EvStartPause; EvStartPause] w = Some w.
Proof.
  intros R. pose proof (reachable_quiescent w R) as Q.
  cbn [run]. rewrite (step_table _ w Q).
  rewrite (step_table _ _ (table_quiescent _ w Q)).
  open_world w. at_rest Q. destruct r; reflexivity.
Qed.

Lemma startPause_twice_is_identity_witness :
  run [EvStartPause; EvStartPause] lastSecondBreak = Some lastSecondBreak.
Proof.
  exact (startPause_twice_is_identity lastSecondBreak
           lastSecondBreak_reachable).
Defined.

(** X8.  Skipping twice, from any world, comes back to the phase it left,
    at its full duration, with the running flag, the timers, the count, the
    flash and the beeps as they were.  In a reachable world that is not
    running this is what one reset does. *)
Theorem skip_twice_restarts_phase (w : World) :
  run [EvSkip; EvSkip] w =
    Some (mkWorld
            (mkState (phase (st w)) (duration (phase (st w)))
                     (isRunning (st w)) (completedPomodoros (st w))
                     (flash (st w)))
            false (interval w) (timeout w) (beeps w)) /\
  (reachable w -> isRunning (st w) = false ->
   run [EvSkip; EvSkip] w = step EvReset w).
Proof.
  assert (E : run [EvSkip; EvSkip] w =
              Some (mkWorld
                      (mkState (phase (st w)) (duration (phase (st w)))
                               (isRunning (st w)) (completedPomodoros (st w))
                               (flash (st w)))
                      false (interval w) (timeout w) (beeps w))).
  { cbn [run]. rewrite step_skip_eq, step_skip_eq.
    open_world w. destruct p; reflexivity. }
  split; [exact E|].
  intros R Idle. rewrite E, step_reset_eq, Idle. reflexivity.
Qed.

Lemma skip_twice_restarts_phase_witness :
  run [EvSkip; EvSkip] initialWorld = step EvReset initialWorld.
Proof.
  exact (proj2 (skip_twice_restarts_phase initialWorld)
               reachable_mount eq_refl).
Defined.

Lemma run_ticks_idle (n : nat) (w : World) :
  quiescent w -> isRunning (st w) = false ->
  run (repeat EvTick n) w = Some w.
Proof.
  intros Q Idle. induction n as [|n IH]; cbn [repeat run]; [reflexivity|].
  rewrite (step_table EvTick w Q). cbn [table]. rewrite Idle. exact IH.
Qed.

(** X9.  A paused timer is frozen.  In a reachable world that is not
    running, any number of ticks changes nothing; and from a running one,
    pausing, letting any number of ticks pass and resuming leads back to the
    same world. *)
Theorem paused_timer_is_frozen (w : World) (n : nat) :
  reachable w ->
  (isRunning (st w) = false -> run (repeat EvTick n) w = Some w) /\
  (isRunning (st w) = true ->
   run (EvStartPause :: repeat EvTick n ++ [EvStartPause]) w = Some w).
Proof.
  intros R. pose proof (reachable_quiescent w R) as Q. split; intros Run.
  - now apply run_ticks_idle.
  - cbn [run]. rewrite (step_table _ w Q).
    pose proof (table_quiescent EvStartPause w Q) as Q1.
    rewrite run_app, (run_ticks_idle n _ Q1).
    + cbn [run]. rewrite (step_table _ _ Q1).
      open_world w. at_rest Q. reflexivity.
    + cbn [table st isRunning]. now rewrite Run.
Qed.

Lemma paused_timer_is_frozen_witness :
  run (EvStartPause :: repeat EvTick 5 ++ [EvStartPause]) lastSecondBreak
  = Some lastSecondBreak.
Proof.
  exact (proj2 (paused_timer_is_frozen lastSecondBreak 5
                  lastSecondBreak_reachable) eq_refl).
Defined.

(** X10.  The flash is switched off by its timeout and by nothing else.  In
    a reachable world the timeout event turns the flash off and spends the
    timeout, leaving the rest as it is (and does nothing when no flash is
    on); any other event keeps a flash that is on, with its timeout still
    pending. *)
Theorem flash_cleared_only_by_timeout (e : Event) (w : World) :
  reachable w ->
  step EvFlashTimeout w =
    Some (mkWorld
            (mkState (phase (st w)) (timeLeft (st w)) (isRunning (st w))
                     (completedPomodoros (st w)) false)
            (autoRestartRef w) (interval w) None (beeps w)) /\
  (e <> EvFlashTimeout -> flash (st w) = true ->
   exists w', step e w = Some w' /\
              flash (st w') = true /\ timeout w' = Some 800).
Proof.
  intros R. pose proof (reachable_quiescent w R) as Q. split.
  - rewrite (step_table _ w Q). open_world w. at_rest Q.
    destruct f; reflexivity.
  - intros NE F. exists (table e w). split; [now apply step_table|].
    open_world w. at_rest Q.
    destruct e, p, r; try congruence;
      unfold table, expire; effects; ztests; split; reflexivity.
Qed.

Lemma flash_cleared_only_by_timeout_witness :
  exists w', step EvSkip lastSecondBreak = Some w' /\
             flash (st w') = true /\ timeout w' = Some 800.
Proof.
  apply (proj2 (flash_cleared_only_by_timeout EvSkip lastSecondBreak
                  lastSecondBreak_reachable)).
  - discriminate.
  - reflexivity.
Defined.

(** X11.  What the button reads after a command.  After reset, from any
    world, it is the start label.  After skip, from any world, it is the
    pause label if the timer runs and the start label otherwise.  After
    pausing a reachable running timer it is the start label if the clock
    still shows the full duration, the resume label otherwise. *)
Theorem label_after_command (w : World) :
  (exists w', step EvReset w = Some w' /\
              startLabel (st w') = "开始"%string) /\
  (exists w', step EvSkip w = Some w' /\
              startLabel (st w') =
                if isRunning (st w) then "暂停"%string else "开始"%string) /\
  (reachable w -> isRunning (st w) = true ->
   exists w', step EvStartPause w = Some w' /\
              startLabel (st w') =
                if timeLeft (st w) =? duration (phase (st w))
                then "开始"%string else "继续"%string).
Proof.
  split; [|split].
  - eexists. split; [apply step_reset_eq|].
    open_world w. unfold startLabel. effects.
    destruct p; reflexivity.
  - eexists. split; [apply step_skip_eq|].
    open_world w. unfold startLabel. effects.
    destruct p, r; reflexivity.
  - intros R Run. pose proof (reachable_quiescent w R) as Q.
    exists (table EvStartPause w). split; [now apply step_table|].
    open_world w. cbn in Run. subst. unfold startLabel, table. effects.
    destruct p; reflexivity.
Qed.

Lemma label_after_command_witness :
  exists w', step EvStartPause lastSecondBreak = Some w' /\
             startLabel (st w') = "继续"%string.
Proof.
  exact (proj2 (proj2 (label_after_command lastSecondBreak))
               lastSecondBreak_reachable eq_refl).
Defined.

(** * The display *)

Lemma digits_small (fuel : nat) (k : Z) :
  k < 10 -> digits (S fuel) k = String (digit k) EmptyString.
Proof.
  intros H. cbn [digits]. destruct (Z.ltb_spec k 10); [reflexivity|lia].
Qed.

Lemma digits_large (fuel : nat) (k : Z) :
  10 <= k ->
  digits (S fuel) k =
  String.append (digits fuel (k / 10))
                (String (digit (k mod 10)) EmptyString).
Proof.
  intros H. cbn [digits]. destruct (Z.ltb_spec k 10); [lia|reflexivity].
Qed.

(** Two digits, zero-padded, for anything below one hundred. *)
Lemma pad2_digits (k : Z) :
  0 <= k < 100 ->
  padStart 2 "0"%char (toString k) =
  String (digit (k / 10)) (String (digit (k mod 10)) EmptyString).
Proof.
  intros H. unfold toString.
  destruct (Z.ltb_spec k 0); [lia|].
  destruct (Z.ltb_spec k 10) as [L|L].
  - rewrite digits_small by assumption.
    rewrite Z.div_small, Z.mod_small by lia. reflexivity.
  - destruct (Z.to_nat k) as [|fuel] eqn:E; [lia|].
    rewrite digits_large by assumption.
    rewrite digits_small by (apply Z.div_lt_upper_bound; lia).
    reflexivity.
Qed.

Lemma formatTime_digits (s : Z) :
  0 <= s < 6000 ->
  formatTime s =
  String (digit (s / 600))
    (String (digit ((s / 60) mod 10))
       (String ":"%char
          (String (digit ((s mod 60) / 10))
             (String (digit (s mod 10)) EmptyString)))).
Proof.
  intros H. unfold formatTime.
  rewrite Z.rem_mod_nonneg by lia.
  rewrite (pad2_digits (s / 60))
    by (split; [apply Z.div_pos; lia | apply Z.div_lt_upper_bound; lia]).
  rewrite (pad2_digits (s mod 60))
    by (pose proof (Z.mod_pos_bound s 60); lia).
  rewrite Z.div_div by lia.
  replace ((s mod 60) mod 10) with (s mod 10)
    by (Z.to_euclidean_division_equations; lia).
  reflexivity.
Qed.

Lemma digit_inj (a b : Z) :
  0 <= a < 10 -> 0 <= b < 10 -> digit a = digit b -> a = b.
Proof.
  intros Ha Hb E. unfold digit in E.
  apply (f_equal nat_of_ascii) in E.
  rewrite !nat_ascii_embedding in E by lia. lia.
Qed.

Lemma formatTime_inj (a b : Z) :
  0 <= a < 6000 -> 0 <= b < 6000 -> formatTime a = formatTime b -> a = b.
Proof.
  intros Ha Hb E.
  rewrite (formatTime_digits a Ha), (formatTime_digits b Hb) in E.
  injection E as E1 E2 E3 E4.
  apply digit_inj in E1, E2, E3, E4;
    Z.to_euclidean_division_equations; lia.
Qed.

(** X12.  For [0 <= s < 6000] the clock is exactly five characters: the
    tens and units of the minutes, a colon, the tens and units of the
    seconds. *)
Theorem clock_is_MM_SS (s : Z) :
  0 <= s < 6000 ->
  formatTime s =
    String (digit (s / 600))
      (String (digit ((s / 60) mod 10))
         (String ":"%char
            (String (digit ((s mod 60) / 10))
               (String (digit (s mod 10)) EmptyString)))) /\
  String.length (formatTime s) = 5%nat.
Proof.
  intros H. rewrite (formatTime_digits s H). split; reflexivity.
Qed.

Lemma clock_is_MM_SS_witness :
  String.length (formatTime 754) = 5%nat.
Proof.
  exact (proj2 (clock_is_MM_SS 754 ltac:(lia))).
Defined.

(** X13.  Below 100 minutes the clock tells the time: two different values
    never print the same, and only zero prints as 00:00. *)
Theorem clock_injective (a b : Z) :
  0 <= a < 6000 -> 0 <= b < 6000 ->
  (formatTime a = formatTime b -> a = b) /\
  (formatTime a = "00:00"%string -> a = 0).
Proof.
  intros Ha Hb. split.
  - now apply formatTime_inj.
  - intros E. apply (formatTime_inj a 0 Ha); [lia|]. rewrite E. reflexivity.
Qed.

Lemma clock_injective_witness :
  0 <= 299 < 6000 /\ formatTime 299 <> formatTime 0.
Proof.
  split; [lia|]. intros E.
  apply (proj1 (clock_injective 299 0 ltac:(lia) ltac:(lia))) in E.
  discriminate E.
Defined.

Lemma append_length (a b : string) :
  String.length (String.append a b) = (String.length a + String.length b)%nat.
Proof. induction a as [|c a IH]; cbn; [reflexivity|now rewrite IH]. Qed.

Lemma fill_length (k : nat) (c : ascii) : String.length (fill k c) = k.
Proof. induction k as [|k IH]; cbn; [reflexivity|now rewrite IH]. Qed.

Lemma padStart_length (n : nat) (c : ascii) (s : string) :
  String.length (padStart n c s) = Nat.max n (String.length s).
Proof. unfold padStart. rewrite append_length, fill_length. lia. Qed.

Lemma padStart_long (n : nat) (c : ascii) (s : string) :
  (n <= String.length s)%nat -> padStart n c s = s.
Proof.
  intros H. unfold padStart.
  replace (n - String.length s)%nat with 0%nat by lia. reflexivity.
Qed.

Lemma digits_nonempty (fuel : nat) (k : Z) :
  (1 <= String.length (digits (S fuel) k))%nat.
Proof.
  cbn [digits]. destruct (k <? 10); [cbn; lia|].
  rewrite append_length. cbn. lia.
Qed.

Lemma toString_hundreds (k : Z) :
  100 <= k -> (3 <= String.length (toString k))%nat.
Proof.
  intros H. unfold toString. destruct (Z.ltb_spec k 0); [lia|].
  destruct (Z.to_nat k) as [|[|fuel]] eqn:E; try lia.
  rewrite digits_large by lia.
  rewrite digits_large by (Z.to_euclidean_division_equations; lia).
  rewrite !append_length.
  pose proof (digits_nonempty fuel (k / 10 / 10)).
  cbn [String.length]. lia.
Qed.

(** X14.  Outside [0, 6000) the clock leaves the MM:SS shape: padding never
    truncates, so from 100 minutes on it has at least six characters; and a
    negative number of seconds prints with a leading minus sign. *)
Theorem clock_out_of_range (s : Z) :
  (6000 <= s -> (6 <= String.length (formatTime s))%nat) /\
  (s < 0 -> exists rest, formatTime s = String "-"%char rest).
Proof.
  split; intros H; unfold formatTime.
  - rewrite !append_length, !padStart_length.
    assert (100 <= s / 60) by (apply Z.div_le_lower_bound; lia).
    pose proof (toString_hundreds (s / 60) ltac:(assumption)).
    cbn [String.length]. lia.
  - assert (N : s / 60 < 0) by (apply Z.div_lt_upper_bound; lia).
    unfold toString at 1. destruct (Z.ltb_spec (s / 60) 0); [|lia].
    rewrite padStart_long.
    + cbn [String.append]. eexists. reflexivity.
    + pose proof (digits_nonempty (Z.to_nat (- (s / 60))) (- (s / 60))).
      cbn [String.length]. lia.
Qed.

Lemma clock_out_of_range_witness :
  (6 <= String.length (formatTime 6000))%nat /\
  (exists rest, formatTime (-1) = String "-"%char rest).
Proof.
  split.
  - apply (proj1 (clock_out_of_range 6000)). lia.
  - apply (proj2 (clock_out_of_range (-1))). lia.
Defined.

(** X15.  In every reachable world the clock on screen has five
    characters and is never 00:00: the expiry has already moved on to the
    next phase when the machine rests. *)
Theorem reachable_clock_never_zero (w : World) :
  reachable w ->
  String.length (formatTime (timeLeft (st w))) = 5%nat /\
  formatTime (timeLeft (st w)) <> "00:00"%string.
Proof.
  intros R. destruct (reachable_quiescent w R) as [_ _ _ Ht].
  assert (B : 0 <= timeLeft (st w) < 6000).
  { destruct (phase (st w)); cbv [duration FOCUS_DURATION BREAK_DURATION] in Ht;
      lia. }
  split.
  - rewrite (formatTime_digits _ B). reflexivity.
  - intros E. assert (timeLeft (st w) = 0); [|lia].
    apply formatTime_inj; [assumption|lia|]. rewrite E. reflexivity.
Qed.

Lemma reachable_clock_never_zero_witness :
  String.length (formatTime (timeLeft (st lastSecondBreak))) = 5%nat.
Proof.
  exact (proj1 (reachable_clock_never_zero lastSecondBreak
                  lastSecondBreak_reachable)).
Defined.

(** X16.  The document title tells both the time and the phase: below 100
    minutes, two states with the same title have the same [timeLeft] and
    the same [phase]. *)
Theorem title_determines_time_and_phase (s1 s2 : State) :
  0 <= timeLeft s1 < 6000 -> 0 <= timeLeft s2 < 6000 ->
  documentTitle s1 = documentTitle s2 ->
  timeLeft s1 = timeLeft s2 /\ phase s1 = phase s2.
Proof.
  intros H1 H2 E. unfold documentTitle in E.
  pose proof (formatTime_digits _ H1) as D1.
  pose proof (formatTime_digits _ H2) as D2.
  rewrite D1, D2 in E. cbn [String.append] in E.
  injection E as E1 E2 E3 E4 E5.
  split.
  - apply formatTime_inj; try assumption. rewrite D1, D2. congruence.
  - destruct (phase s1), (phase s2); try reflexivity;
      cbn in E5; discriminate E5.
Qed.

Lemma title_determines_time_and_phase_witness :
  documentTitle initialState = "25:00 · 专注 | 番茄钟"%string /\
  timeLeft initialState = 1500 /\ phase initialState = focus.
Proof.
  split; [vm_compute; reflexivity|].
  apply (title_determines_time_and_phase initialState initialState);
    [cbv; intuition congruence | cbv; intuition congruence | reflexivity].
Defined.

Lemma filledDots_range (c : Z) :
  0 <= c -> 0 <= filledDots c <= 4 /\ (0 < c -> 1 <= filledDots c).
Proof.
  intros H. unfold filledDots, cyclePos.
  rewrite Z.rem_mod_nonneg by lia.
  pose proof (Z.mod_pos_bound c 4 ltac:(lia)).
  destruct (Z.gtb_spec c 0); destruct (Z.eqb_spec (c mod 4) 0);
    cbn [andb]; lia.
Qed.

(** X17.  The row of four dots shows [filledDots]: for a count [c >= 0]
    that number is between 0 and 4, and at least 1 once a pomodoro is
    completed; the row is that many dots in the colour of the phase followed
    by empty ones.  For a count [c <= 0] all four dots are empty. *)
Theorem dot_row_shows_filledDots (s : State) :
  let c := completedPomodoros s in
  let k := Z.to_nat (filledDots c) in
  (0 <= c ->
   0 <= filledDots c <= 4 /\
   (0 < c -> 1 <= filledDots c) /\
   dotRow s =
     repeat (if isFocus s then "dot focus"%string else "dot break"%string) k
     ++ repeat "dot empty"%string (4 - k) /\
   List.length (filter filled (dotRow s)) = k) /\
  (c <= 0 -> dotRow s = repeat "dot empty"%string 4).
Proof.
  cbv zeta. split.
  - intros H. destruct (filledDots_range _ H) as [B P].
    split; [exact B|split; [exact P|]].
    assert (K : filledDots (completedPomodoros s) = 0 \/
                filledDots (completedPomodoros s) = 1 \/
                filledDots (completedPomodoros s) = 2 \/
                filledDots (completedPomodoros s) = 3 \/
                filledDots (completedPomodoros s) = 4) by lia.
    unfold dotRow, dotClass.
    destruct K as [K|[K|[K|[K|K]]]]; rewrite K;
      destruct (isFocus s); split; reflexivity.
  - intros H. unfold dotRow, dotClass.
    assert (K : filledDots (completedPomodoros s) <= 0).
    { unfold filledDots, cyclePos.
      destruct (Z.gtb_spec (completedPomodoros s) 0); [lia|].
      cbn [andb]. pose proof (Z.rem_nonpos (completedPomodoros s) 4).
      lia. }
    cbn [map repeat].
    repeat match goal with
           | |- context [?i <? ?k] => destruct (Z.ltb_spec i k); [lia|]
           end.
    reflexivity.
Qed.

Lemma dot_row_shows_filledDots_witness :
  dotRow (mkState break 12 true 6 false) =
  ["dot break"; "dot break"; "dot empty"; "dot empty"]%string.
Proof.
  apply (proj1 (dot_row_shows_filledDots (mkState break 12 true 6 false))).
  cbn. lia.
Defined.

(** X18.  Completing one more pomodoro fills one more dot, and a full row
    of four starts over at one: for [c >= 0],
    [filledDots (c + 1)] is 1 if [filledDots c] is 4 and
    [filledDots c + 1] otherwise. *)
Theorem filledDots_advances (c : Z) :
  0 <= c ->
  filledDots (c + 1) = if filledDots c =? 4 then 1 else filledDots c + 1.
Proof.
  intros H. unfold filledDots, cyclePos.
  rewrite !Z.rem_mod_nonneg by lia.
  destruct (Z.gtb_spec (c + 1) 0); [|lia].
  destruct (Z.gtb_spec c 0);
    destruct (Z.eqb_spec ((c + 1) mod 4) 0);
    destruct (Z.eqb_spec (c mod 4) 0); cbn [andb];
    repeat match goal with
           | |- context [Z.eqb ?a ?b] => destruct (Z.eqb_spec a b)
           end;
    Z.to_euclidean_division_equations; lia.
Qed.

Lemma filledDots_advances_witness :
  filledDots (4 + 1) = 1 /\ filledDots (5 + 1) = 2.
Proof.
  split.
  - exact (filledDots_advances 4 ltac:(lia)).
  - exact (filledDots_advances 5 ltac:(lia)).
Defined.

(** X19.  How an event is committed in a reachable world.  The tick that
    ends a phase commits three states in a row: the clock at zero, still
    running in the old phase; the new phase at its full duration, stopped,
    flash on, the count raised if a break ended; and the same state running
    again.  Any other event commits at most once. *)
Theorem expiry_is_three_commits (e : Event) (w : World) :
  reachable w ->
  (expiring e w = true ->
   renders FUEL (handler e (w, [])) =
     [mkState (phase (st w)) 0 true (completedPomodoros (st w)) (flash (st w));
      mkState (other (phase (st w))) (duration (other (phase (st w)))) false
              (match phase (st w) with
               | focus => completedPomodoros (st w)
               | break => completedPomodoros (st w) + 1
               end) true;
      st (expire w)]) /\
  (expiring e w = false ->
   (List.length (renders FUEL (handler e (w, []))) <= 1)%nat).
Proof.
  intros R. pose proof (reachable_quiescent w R) as Q.
  open_world w. at_rest Q.
  destruct e, p, r, f; unfold expiring, expire; effects;
    (split; intros X; try discriminate X);
    revert X; machine; intros X; try discriminate X; subst;
    try reflexivity; cbn [List.length]; lia.
Qed.

Lemma expiry_is_three_commits_witness :
  renders FUEL (handler EvTick (lastSecondBreak, [])) =
    [mkState break 0 true 0 true;
     mkState focus 1500 false 1 true;
     mkState focus 1500 true 1 true].
Proof.
  exact (proj1 (expiry_is_three_commits EvTick lastSecondBreak
                  lastSecondBreak_reachable) eq_refl).
Defined.
